(** * The API configuration cache of [pkg/api/config/config.go]

    A shallow embedding of the package [config]: the process-wide cache that
    maps an application package name to its [model.APIConfig], reloaded from
    the database when it is older than [refreshPeriod].

    The embedding follows one goroutine.  The [sync.RWMutex] field [mu] is
    not represented: in a single goroutine the [Lock]/[Unlock] pair of
    [loadConfig] and the [RLock]/[RUnlock] pair of [appConfig] always succeed
    and cancel out, and on the [os.Exit] path nothing runs after the lock is
    left held.  Everything outside the file (environment, clocks, database,
    logger, duration parser) is an oracle of the [World] record. *)

From Stdlib Require Import ZArith Lia.
From stdpp Require Import gmap strings list fin_maps.

Open Scope Z_scope.

(** ** The fragment of Go's package [time] the file uses *)

Module time.

(** [time.Duration] is an [int64] count of nanoseconds. *)
Definition Duration := Z.

Definition minDuration : Duration := - 2 ^ 63.
Definition maxDuration : Duration := 2 ^ 63 - 1.

Definition Nanosecond : Duration := 1.
Definition Microsecond : Duration := 1000 * Nanosecond.
Definition Millisecond : Duration := 1000 * Microsecond.
Definition Second : Duration := 1000 * Millisecond.
Definition Minute : Duration := 60 * Second.

(** The values a [Duration] variable can hold. *)
Definition isDuration (d : Z) : Prop := minDuration <= d <= maxDuration.

(** A [time.Time]: the wall clock instant in nanoseconds since
    January 1, year 1, 00:00:00 UTC, and the monotonic clock reading when
    the value carries one. *)
Record Time := mkTime { wall : Z; mono : option Z }.

(** The zero value of [Time]: the first instant, no monotonic reading. *)
Definition zero : Time := mkTime 0 None.

(** Seconds from year 1 to 1885 and to 1970 ([wallToInternal],
    [unixToInternal]). *)
Definition secondsPerDay : Z := 86400.
Definition wallToInternal : Z :=
  (1884 * 365 + 1884 / 4 - 1884 / 100 + 1884 / 400) * secondsPerDay.
Definition unixToInternal : Z :=
  (1969 * 365 + 1969 / 4 - 1969 / 100 + 1969 / 400) * secondsPerDay.

(** The Unix epoch as a wall clock instant. *)
Definition unixEpoch : Z := unixToInternal * Second.

(** One reading of the system clocks: wall clock and the process's
    monotonic clock, both in nanoseconds. *)
Record Reading := mkReading { rd_wall : Z; rd_mono : Z }.

(** Differences that do not fit a [Duration] are clamped. *)
Definition saturate (d : Z) : Duration :=
  if d <? minDuration then minDuration
  else if maxDuration <? d then maxDuration
  else d.

(** [t.Sub(u)]: on the monotonic readings when both have one, on the wall
    clock otherwise. *)
Definition Sub (t u : Time) : Duration :=
  match mono t, mono u with
  | Some a, Some b => saturate (a - b)
  | _, _ => saturate (wall t - wall u)
  end.

(** [time.Now()] at a reading.  The monotonic reading is attached when the
    wall clock lies in the 2^33 seconds that start in 1885. *)
Definition Now (r : Reading) : Time :=
  let sec := rd_wall r / Second - wallToInternal in
  if (0 <=? sec) && (sec <? 2 ^ 33)
  then mkTime (rd_wall r) (Some (rd_mono r))
  else mkTime (rd_wall r) None.

(** [time.Since(t)] at a reading: against the bare monotonic clock when
    [t] has a monotonic reading, [Now().Sub(t)] otherwise. *)
Definition Since (r : Reading) (t : Time) : Duration :=
  match mono t with
  | Some _ => Sub (mkTime 0 (Some (rd_mono r))) t
  | None => Sub (Now r) t
  end.

End time.

(** ** Log calls *)

(** The logger methods the file calls. *)
Inductive Method := Info | Warn | Errorf | Fatalf.

#[global] Instance Method_eq_dec : EqDecision Method.
Proof. solve_decision. Defined.

(** The values handed to the logger. *)
Inductive Value :=
| VString (s : string)
| VDuration (d : time.Duration)
| VError (e : string).

(** One call on a logger: the method and its arguments in order (for
    [Errorf] and [Fatalf] the first argument is the template). *)
Record Call := mkCall { method : Method; args : list Value }.

(** A Go [error]: [None] is [nil], [Some e] an error with message [e]. *)
Definition error := option string.

(** Modelled from the spec: the logger of the absent package [logging].  The
    spec lists fatal-with-process-termination among its severities; whether a
    given logger's [Fatalf] ends the process is a property of the logger, so
    that the statement after [Fatalf] in [loadConfig] can be followed too. *)
Record Logger := mkLogger { exitsOnFatal : bool }.

Definition defaultRefreshPeriod : time.Duration := time.Minute.

Section Config.

(** The fields of [model.APIConfig] other than [AppPackageName] are
    declared outside the file. *)
Variable Fields : Type.

(** [context.Context] is opaque to the file. *)
Variable Context : Type.

(** The record behind a non-nil [*model.APIConfig]; the pointer itself is
    an [option APIConfig], [None] for [nil]. *)
Record APIConfig := mkAPIConfig { AppPackageName : string; fields : Fields }.

Record config := mkConfig {
  lastLoadTime : time.Time;
  cache : gmap string APIConfig;
  refreshPeriod : time.Duration
}.

(** What the process reads from outside.  The [n]-th clock query gets
    [clock n]; the [n]-th database read, made with context [ctx], gets
    [ReadAPIConfigs ctx n]: the records (non-nil pointers) or an error. *)
Record World := mkWorld {
  Getenv : string → string;
  ParseDuration : string → time.Duration + string;
  clock : nat → time.Reading;
  ReadAPIConfigs : Context → nat → list APIConfig + string;
  FromContext : Context → Logger
}.

(** The process state: the object [globalConfig] points to, the calls
    logged so far, and how many clock queries and database reads were
    made. *)
Record State := mkState {
  globalConfig : config;
  log : list Call;
  clockReads : nat;
  storeReads : nat
}.

(** A computation returns a value or ends the process ([os.Exit]); either
    way it leaves a state behind. *)
Inductive Result (A : Type) :=
| Returns (a : A) (s : State)
| Exits (code : Z) (s : State).
Arguments Returns {A} a s.
Arguments Exits {A} code s.

Definition M (A : Type) := State → Result A.

Definition ret {A} (a : A) : M A := λ s, Returns a s.

Definition bind {A B} (m : M A) (k : A → M B) : M B :=
  λ s, match m s with
       | Returns a s' => k a s'
       | Exits code s' => Exits code s'
       end.

#[local] Instance M_ret : MRet M := @ret.
#[local] Instance M_bind : MBind M := λ A B k m, bind m k.

Definition final {A} (r : Result A) : State :=
  match r with Returns _ s => s | Exits _ s => s end.

(** *** Primitive steps *)

Variable w : World.

Definition getConfig : M config := λ s, Returns (globalConfig s) s.

Definition setCache (m : gmap string APIConfig) : M unit := λ s,
  let c := globalConfig s in
  Returns tt (mkState (mkConfig (lastLoadTime c) m (refreshPeriod c))
                      (log s) (clockReads s) (storeReads s)).

Definition setLastLoadTime (t : time.Time) : M unit := λ s,
  let c := globalConfig s in
  Returns tt (mkState (mkConfig t (cache c) (refreshPeriod c))
                      (log s) (clockReads s) (storeReads s)).

Definition nextReading : M time.Reading := λ s,
  Returns (clock w (clockReads s))
          (mkState (globalConfig s) (log s) (S (clockReads s)) (storeReads s)).

Definition time_Since (t : time.Time) : M time.Duration :=
  r ← nextReading; mret (time.Since r t).

Definition time_Now : M time.Time :=
  r ← nextReading; mret (time.Now r).

Definition database_ReadAPIConfigs (ctx : Context)
  : M (list APIConfig + string) := λ s,
  Returns (ReadAPIConfigs w ctx (storeReads s))
          (mkState (globalConfig s) (log s) (clockReads s) (S (storeReads s))).

Definition logCall (c : Call) : M unit := λ s,
  Returns tt (mkState (globalConfig s) (log s ++ [c])
                      (clockReads s) (storeReads s)).

Definition os_Exit {A} (code : Z) : M A := λ s, Exits code s.

Definition logger_Info (a : list Value) : M unit := logCall (mkCall Info a).
Definition logger_Warn (a : list Value) : M unit := logCall (mkCall Warn a).
Definition logger_Errorf (a : list Value) : M unit := logCall (mkCall Errorf a).

(** [Fatalf] writes the entry, then ends the process with status 1 when
    the logger is of the terminating kind. *)
Definition logger_Fatalf (l : Logger) (a : list Value) : M unit :=
  logCall (mkCall Fatalf a) ;;
  if exitsOnFatal l then os_Exit 1 else mret tt.

(** *** [newConfig] *)

(** Returns the new object and the calls made on the logger. *)
Definition newConfig : config * list Call :=
  let cfg := mkConfig time.zero ∅ defaultRefreshPeriod in
  let '(cfg, l1) :=
    let ds := Getenv w "CONFIG_REFRESH_DURATION" in
    if bool_decide (ds ≠ "") then
      match ParseDuration w ds with
      | inr _ =>
          (cfg, [mkCall Info [VString "CONFIG_REFRESH_DURATION parse error: %v";
                             VDuration defaultRefreshPeriod]])
      | inl d => (mkConfig (lastLoadTime cfg) (cache cfg) d, [])
      end
    else (cfg, []) in
  let l2 :=
    if time.Minute * 5 <? refreshPeriod cfg then
      [mkCall Warn [VString "config refresh duration is > 5 minutes: %v";
                    VDuration (refreshPeriod cfg)]]
    else [] in
  (cfg, l1 ++ l2).

(** The package initialiser [var globalConfig = newConfig()]. *)
Definition init : State :=
  mkState (fst newConfig) (snd newConfig) 0 0.

(** *** [loadConfig] *)

(** The loop [for _, apiConfig := range configs]. *)
Fixpoint rangeConfigs (configs : list APIConfig) : M unit :=
  match configs with
  | [] => mret tt
  | apiConfig :: rest =>
      c ← getConfig;
      setCache (<[AppPackageName apiConfig := apiConfig]> (cache c)) ;;
      rangeConfigs rest
  end.

Definition loadConfig (ctx : Context) : M error :=
  let logger := FromContext w ctx in
  c ← getConfig;
  since ← time_Since (lastLoadTime c);
  if since <? refreshPeriod c then mret None
  else
    r ← database_ReadAPIConfigs ctx;
    match r with
    | inr err =>
        logger_Fatalf logger [VString "error loading APIConfig: %v"; VError err] ;;
        mret (Some err)
    | inl configs =>
        setCache ∅ ;;
        rangeConfigs configs ;;
        logger_Info [VString "loaded new APIConfig values"] ;;
        now ← time_Now;
        setLastLoadTime now ;;
        mret None
    end.

(** *** [appConfig] and [AppPkgConfig] *)

Definition appConfig (appPkg : string) : M (option APIConfig * bool) :=
  c ← getConfig;
  match cache c !! appPkg with
  | Some r => mret (Some r, true)
  | None => mret (None, false)
  end.

Definition AppPkgConfig (ctx : Context) (appPkg : string)
  : M (option APIConfig * error) :=
  loadConfig ctx ;;
  '(appConfig, ok) ← appConfig appPkg;
  (if negb ok
   then logger_Errorf [VString "requested config for unconfigured app: %v";
                       VString appPkg]
   else mret tt) ;;
  mret (appConfig, None).

(** *** Abbreviations used in the statements *)

(** What [time.Since(c.lastLoadTime)] evaluates to at the next clock
    query of [s]. *)
Definition elapsed (s : State) : time.Duration :=
  time.Since (clock w (clockReads s)) (lastLoadTime (globalConfig s)).

(** The map the loop of [loadConfig] leaves when started on [m]. *)
Definition build (m : gmap string APIConfig) (configs : list APIConfig)
  : gmap string APIConfig :=
  foldl (λ acc apiConfig, <[AppPackageName apiConfig := apiConfig]> acc)
        m configs.

(** [r] sits at index [i] of [configs] and no later record has its
    package name. *)
Definition lastFor (configs : list APIConfig) (i : nat) (r : APIConfig) : Prop :=
  configs !! i = Some r ∧
  ∀ j r', (i < j)%nat → configs !! j = Some r' →
          AppPackageName r' ≠ AppPackageName r.

(** No record of [configs] has package name [k]. *)
Definition absentFrom (configs : list APIConfig) (k : string) : Prop :=
  ∀ r, r ∈ configs → AppPackageName r ≠ k.

(** The cache is expired at the next clock query of [s]: the test
    [time.Since(c.lastLoadTime) < c.refreshPeriod] fails. *)
Definition expired (s : State) : Prop :=
  refreshPeriod (globalConfig s) <= elapsed s.

(** The calls logged on the way from [s] to [s']. *)
Definition logged (s s' : State) : list Call :=
  drop (length (log s)) (log s').

(** The calls of method [m] among [l]. *)
Definition callsOf (m : Method) (l : list Call) : list Call :=
  filter (λ c, method c = m) l.

Definition loadedCall : Call :=
  mkCall Info [VString "loaded new APIConfig values"].
Definition fatalCall (err : string) : Call :=
  mkCall Fatalf [VString "error loading APIConfig: %v"; VError err].
Definition unconfiguredCall (appPkg : string) : Call :=
  mkCall Errorf [VString "requested config for unconfigured app: %v";
                 VString appPkg].

(** ** Properties *)

Ltac run :=
  unfold time_Since, time_Now, nextReading, database_ReadAPIConfigs,
    logger_Fatalf, logger_Info, logger_Warn, logger_Errorf, logCall,
    os_Exit, getConfig, setCache, setLastLoadTime,
    mbind, M_bind, bind, mret, M_ret, ret; simpl.

Lemma rangeConfigs_build configs s :
  rangeConfigs configs s =
  Returns tt (mkState (mkConfig (lastLoadTime (globalConfig s))
                                (build (cache (globalConfig s)) configs)
                                (refreshPeriod (globalConfig s)))
                      (log s) (clockReads s) (storeReads s)).
Proof.
  revert s. induction configs as [|r rest IH]; intros s.
  - destruct s as [[t m p] l c n]. reflexivity.
  - simpl. run. rewrite IH. reflexivity.
Qed.

(** The three ways through [loadConfig], as one equation. *)
Lemma loadConfig_eq ctx s :
  loadConfig ctx s =
  let c := globalConfig s in
  if elapsed s <? refreshPeriod c then
    Returns None (mkState c (log s) (S (clockReads s)) (storeReads s))
  else
    match ReadAPIConfigs w ctx (storeReads s) with
    | inr err =>
        let s' := mkState c (log s ++ [fatalCall err])
                          (S (clockReads s)) (S (storeReads s)) in
        if exitsOnFatal (FromContext w ctx) then Exits 1 s'
        else Returns (Some err) s'
    | inl configs =>
        Returns None
          (mkState (mkConfig (time.Now (clock w (S (clockReads s))))
                             (build ∅ configs) (refreshPeriod c))
                   (log s ++ [loadedCall])
                   (S (S (clockReads s))) (S (storeReads s)))
    end.
Proof.
  unfold loadConfig, elapsed. run.
  destruct (_ <? _); [reflexivity|]. simpl.
  destruct (ReadAPIConfigs w ctx (storeReads s)) as [configs|err]; simpl.
  - rewrite rangeConfigs_build. reflexivity.
  - destruct (exitsOnFatal _); reflexivity.
Qed.

Lemma appConfig_eq appPkg s :
  appConfig appPkg s =
  Returns (cache (globalConfig s) !! appPkg,
           bool_decide (is_Some (cache (globalConfig s) !! appPkg))) s.
Proof.
  unfold appConfig. run. destruct (_ !! _); reflexivity.
Qed.

(** [AppPkgConfig] in terms of the outcome of its [loadConfig] call. *)
Lemma AppPkgConfig_eq ctx appPkg s :
  AppPkgConfig ctx appPkg s =
  match loadConfig ctx s with
  | Exits code s' => Exits code s'
  | Returns _ s' =>
      match cache (globalConfig s') !! appPkg with
      | Some r => Returns (Some r, None) s'
      | None =>
          Returns (None, None)
            (mkState (globalConfig s') (log s' ++ [unconfiguredCall appPkg])
                     (clockReads s') (storeReads s'))
      end
  end.
Proof.
  unfold AppPkgConfig, appConfig. run.
  destruct (loadConfig ctx s) as [e s'|code s']; [|reflexivity].
  destruct (_ !! _); reflexivity.
Qed.

Lemma build_snoc m configs r :
  build m (configs ++ [r]) = <[AppPackageName r := r]> (build m configs).
Proof. unfold build. rewrite foldl_app. reflexivity. Qed.

(** A key no record carries keeps the value it had before the loop. *)
Lemma build_absent m configs k :
  absentFrom configs k → build m configs !! k = m !! k.
Proof.
  induction configs as [|r configs IH] using rev_ind; intros Habs.
  - reflexivity.
  - rewrite build_snoc, lookup_insert_ne.
    + apply IH. intros r' Hin. apply Habs. set_solver.
    + apply Habs. set_solver.
Qed.

(** The last record with a given name is the one the loop leaves. *)
Lemma build_last m configs i r :
  lastFor configs i r → build m configs !! AppPackageName r = Some r.
Proof.
  revert i r. induction configs as [|x configs IH] using rev_ind;
    intros i r [Hi Hlast].
  - discriminate.
  - rewrite build_snoc.
    destruct (decide (i = length configs)) as [->|Hne].
    + rewrite lookup_app_r, Nat.sub_diag in Hi by lia.
      injection Hi as ->. apply lookup_insert_eq.
    + assert (i < length configs)%nat as Hlt.
      { apply lookup_lt_Some in Hi. rewrite length_app in Hi. simpl in Hi. lia. }
      rewrite lookup_insert_ne.
      * apply (IH i). split.
        -- rewrite lookup_app_l in Hi; assumption.
        -- intros j r' Hj Hr'. apply (Hlast j); [assumption|].
           rewrite lookup_app_l; [assumption|].
           apply lookup_lt_Some in Hr'. assumption.
      * apply (Hlast (length configs)); [assumption|].
        rewrite lookup_app_r, Nat.sub_diag by lia. reflexivity.
Qed.

(** Whatever the loop leaves under a key is a record of the sequence
    with that name, or was in the map it started on. *)
Lemma build_from m configs k r :
  build m configs !! k = Some r →
  (AppPackageName r = k ∧ r ∈ configs) ∨ m !! k = Some r.
Proof.
  induction configs as [|x configs IH] using rev_ind.
  - right. assumption.
  - rewrite build_snoc. intros H.
    destruct (decide (AppPackageName x = k)) as [<-|Hne].
    + rewrite lookup_insert_eq in H. injection H as ->. left. set_solver.
    + rewrite lookup_insert_ne in H by assumption.
      destruct (IH H) as [[Hname Hin]|Hm]; [left|right; assumption].
      split; [assumption|]. apply elem_of_app. left. assumption.
Qed.

(** Every package name that occurs in the sequence has a last record. *)
Lemma present_lastFor configs r :
  r ∈ configs →
  ∃ i r', lastFor configs i r' ∧ AppPackageName r' = AppPackageName r.
Proof.
  induction configs as [|x configs IH] using rev_ind; intros Hin.
  - inversion Hin.
  - destruct (decide (AppPackageName x = AppPackageName r)) as [Heq|Hne].
    + exists (length configs), x. split; [split|assumption].
      * rewrite lookup_app_r, Nat.sub_diag by lia. reflexivity.
      * intros j r' Hj Hr'. apply lookup_lt_Some in Hr'.
        rewrite length_app in Hr'. simpl in Hr'. lia.
    + apply elem_of_app in Hin as [Hin|Hin].
      * destruct (IH Hin) as (i & r' & [Hi Hlast] & Hname).
        exists i, r'. split; [split|assumption].
        -- rewrite lookup_app_l; [assumption|].
           apply lookup_lt_Some in Hi. assumption.
        -- intros j r'' Hj Hr''.
           destruct (decide (j < length configs)%nat) as [Hlt|Hge].
           ++ rewrite lookup_app_l in Hr'' by assumption. eauto.
           ++ rewrite lookup_app_r in Hr'' by lia.
              destruct (j - length configs)%nat; [|discriminate].
              injection Hr'' as <-. congruence.
      * apply list_elem_of_singleton in Hin. congruence.
Qed.

Lemma expired_ltb s :
  expired s → (elapsed s <? refreshPeriod (globalConfig s)) = false.
Proof. unfold expired. intros H. apply Z.ltb_ge. assumption. Qed.

(** The reload path of [loadConfig]. *)
Lemma loadConfig_reload ctx s configs :
  expired s →
  ReadAPIConfigs w ctx (storeReads s) = inl configs →
  loadConfig ctx s =
  Returns None
    (mkState (mkConfig (time.Now (clock w (S (clockReads s))))
                       (build ∅ configs) (refreshPeriod (globalConfig s)))
             (log s ++ [loadedCall])
             (S (S (clockReads s))) (S (storeReads s))).
Proof.
  intros Hexp Hread. rewrite loadConfig_eq. simpl.
  rewrite (expired_ltb _ Hexp), Hread. reflexivity.
Qed.

(** The fast path of [loadConfig]. *)
Lemma loadConfig_skip ctx s :
  elapsed s < refreshPeriod (globalConfig s) →
  loadConfig ctx s =
  Returns None (mkState (globalConfig s) (log s)
                        (S (clockReads s)) (storeReads s)).
Proof.
  intros Hfresh. rewrite loadConfig_eq. simpl.
  apply Z.ltb_lt in Hfresh. rewrite Hfresh. reflexivity.
Qed.

Lemma logged_app s s' l : log s' = log s ++ l → logged s s' = l.
Proof. unfold logged. intros ->. apply drop_app_length. Qed.

(** Whatever [loadConfig] does, it never calls [Errorf]. *)
Lemma loadConfig_no_Errorf ctx s :
  ∃ l, log (final (loadConfig ctx s)) = log s ++ l ∧ callsOf Errorf l = [].
Proof.
  rewrite loadConfig_eq. simpl.
  destruct (_ <? _); simpl.
  - exists []. rewrite app_nil_r. split; reflexivity.
  - destruct (ReadAPIConfigs _ _ _) as [configs|err]; simpl.
    + exists [loadedCall]. split; reflexivity.
    + exists [fatalCall err].
      destruct (exitsOnFatal _); split; reflexivity.
Qed.

(** ** The claims *)

(** C1.  After a [loadConfig] call whose database read succeeds with
    [configs]: for every package name carried by a record of [configs],
    [appConfig] returns the (last) record of that name with [ok = true];
    for every name carried by none, [appConfig] returns [nil] with
    [ok = false], whatever the earlier snapshot held, and [AppPkgConfig],
    both in the call that made this reload and in a later call that takes
    the fast path, logs exactly one [Errorf] call. *)
Theorem lookup_after_load ctx s configs :
  expired s →
  ReadAPIConfigs w ctx (storeReads s) = inl configs →
  ∃ s', loadConfig ctx s = Returns None s' ∧
    (∀ k, (∃ r, r ∈ configs ∧ AppPackageName r = k) →
       ∃ i r, lastFor configs i r ∧ AppPackageName r = k ∧
              appConfig k s' = Returns (Some r, true) s') ∧
    (∀ k, absentFrom configs k →
       appConfig k s' = Returns (None, false) s' ∧
       (∃ s'', AppPkgConfig ctx k s = Returns (None, None) s'' ∧
               logged s s'' = [loadedCall; unconfiguredCall k] ∧
               callsOf Errorf (logged s s'') = [unconfiguredCall k]) ∧
       (∀ ctx', elapsed s' < refreshPeriod (globalConfig s') →
          ∃ s'', AppPkgConfig ctx' k s' = Returns (None, None) s'' ∧
                 logged s' s'' = [unconfiguredCall k] ∧
                 callsOf Errorf (logged s' s'') = [unconfiguredCall k])).
Proof.
  intros Hexp Hread. eexists. split; [apply loadConfig_reload; eassumption|].
  split.
  - intros k (r & Hin & <-).
    destruct (present_lastFor _ _ Hin) as (i & r' & Hlast & Hname).
    exists i, r'. split; [assumption|]. split; [assumption|].
    rewrite appConfig_eq. simpl. rewrite <- Hname.
    rewrite (build_last _ _ _ _ Hlast). reflexivity.
  - intros k Habs.
    assert (build ∅ configs !! k = None) as Hnone.
    { rewrite build_absent by assumption. apply lookup_empty. }
    split; [|split].
    + rewrite appConfig_eq. simpl. rewrite Hnone. reflexivity.
    + eexists. split.
      * rewrite AppPkgConfig_eq, (loadConfig_reload _ _ _ Hexp Hread).
        simpl. rewrite Hnone. reflexivity.
      * assert (∀ s'', log s'' = log s ++ [loadedCall; unconfiguredCall k] →
                       logged s s'' = [loadedCall; unconfiguredCall k]) as Hl
          by (intros; apply logged_app; assumption).
        rewrite Hl by (simpl; rewrite <- app_assoc; reflexivity).
        split; reflexivity.
    + intros ctx' Hfresh. eexists. split.
      * rewrite AppPkgConfig_eq, (loadConfig_skip _ _ Hfresh).
        simpl. rewrite Hnone. reflexivity.
      * rewrite (logged_app _ _ [unconfiguredCall k]) by reflexivity.
        split; reflexivity.
Qed.

(** C2.  On a successful read [loadConfig] installs a map built from the
    read alone: every entry is a record of [configs] under its own
    [AppPackageName] (nothing of the old snapshot is kept), every record's
    name is a key, of several records with one name the last in the
    sequence is the one stored, and [lastLoadTime] becomes [time.Now()]
    as read after the rebuild. *)
Theorem loadConfig_rebuilds ctx s configs :
  expired s →
  ReadAPIConfigs w ctx (storeReads s) = inl configs →
  ∃ s', loadConfig ctx s = Returns None s' ∧
    cache (globalConfig s') = build ∅ configs ∧
    (∀ k r, cache (globalConfig s') !! k = Some r →
            AppPackageName r = k ∧ r ∈ configs) ∧
    (∀ r, r ∈ configs →
          is_Some (cache (globalConfig s') !! AppPackageName r)) ∧
    (∀ i r, lastFor configs i r →
            cache (globalConfig s') !! AppPackageName r = Some r) ∧
    lastLoadTime (globalConfig s') = time.Now (clock w (S (clockReads s))).
Proof.
  intros Hexp Hread. eexists. split; [apply loadConfig_reload; eassumption|].
  simpl. split; [reflexivity|]. split; [|split; [|split]].
  - intros k r Hk. destruct (build_from _ _ _ _ Hk) as [H|H]; [assumption|].
    rewrite lookup_empty in H. discriminate.
  - intros r Hin.
    destruct (present_lastFor _ _ Hin) as (i & r' & Hlast & Hname).
    exists r'. rewrite <- Hname. apply (build_last _ _ i). assumption.
  - intros i r Hlast. apply (build_last _ _ i). assumption.
  - reflexivity.
Qed.

(** C3.  When [time.Since(c.lastLoadTime)] is strictly less than
    [c.refreshPeriod], [loadConfig] returns [nil] without reading the
    database and leaves the object, snapshot and [lastLoadTime] included,
    and the log as they were. *)
Theorem loadConfig_fresh ctx s :
  elapsed s < refreshPeriod (globalConfig s) →
  ∃ s', loadConfig ctx s = Returns None s' ∧
    storeReads s' = storeReads s ∧
    cache (globalConfig s') = cache (globalConfig s) ∧
    lastLoadTime (globalConfig s') = lastLoadTime (globalConfig s) ∧
    globalConfig s' = globalConfig s ∧
    log s' = log s.
Proof.
  intros Hfresh. eexists. split; [apply loadConfig_skip; assumption|].
  simpl. repeat split.
Qed.

(** C4.  [AppPkgConfig] never returns an error: whenever it returns, the
    error is [nil], also when the package name is not in the snapshot, in
    which case the record is [nil] and the last call logged is the
    [Errorf] naming the package.  The only calls that do not return are
    those that end the process in [Fatalf]. *)
Theorem AppPkgConfig_nil_error ctx appPkg s :
  match AppPkgConfig ctx appPkg s with
  | Returns (r, err) s' =>
      err = None ∧
      (cache (globalConfig s') !! appPkg = None →
       r = None ∧ last (log s') = Some (unconfiguredCall appPkg))
  | Exits code s' =>
      expired s ∧
      (∃ e, ReadAPIConfigs w ctx (storeReads s) = inr e) ∧
      exitsOnFatal (FromContext w ctx) = true
  end.
Proof.
  rewrite AppPkgConfig_eq, loadConfig_eq. simpl.
  destruct (elapsed s <? refreshPeriod (globalConfig s)) eqn:Hlt; simpl.
  - destruct (cache (globalConfig s) !! appPkg) eqn:Hk; simpl.
    + split; [reflexivity|]. rewrite Hk. discriminate.
    + split; [reflexivity|]. intros _. split; [reflexivity|].
      apply last_snoc.
  - destruct (ReadAPIConfigs w ctx (storeReads s)) as [configs|e]; simpl.
    + destruct (build ∅ configs !! appPkg) eqn:Hk; simpl.
      * split; [reflexivity|]. rewrite Hk. discriminate.
      * split; [reflexivity|]. intros _. split; [reflexivity|].
        apply last_snoc.
    + destruct (exitsOnFatal (FromContext w ctx)) eqn:Hexit; simpl.
      * split; [|split; [eexists|]; reflexivity].
        apply Z.ltb_ge. assumption.
      * destruct (cache (globalConfig s) !! appPkg) eqn:Hk; simpl.
        -- split; [reflexivity|]. rewrite Hk. discriminate.
        -- split; [reflexivity|]. intros _. split; [reflexivity|].
           apply last_snoc.
Qed.

(** C5.  When the cache is expired and the database read fails with [e],
    [loadConfig] calls [Fatalf] with the error and installs nothing: the
    snapshot and [lastLoadTime] are those of before.  With a logger whose
    [Fatalf] ends the process the call exits with status 1, and so does
    [AppPkgConfig], which therefore serves no lookup. *)
Theorem loadConfig_read_error ctx s e :
  expired s →
  ReadAPIConfigs w ctx (storeReads s) = inr e →
  let s' := final (loadConfig ctx s) in
  log s' = log s ++ [fatalCall e] ∧
  storeReads s' = S (storeReads s) ∧
  cache (globalConfig s') = cache (globalConfig s) ∧
  lastLoadTime (globalConfig s') = lastLoadTime (globalConfig s) ∧
  (exitsOnFatal (FromContext w ctx) = true →
   loadConfig ctx s = Exits 1 s' ∧
   ∀ appPkg, AppPkgConfig ctx appPkg s = Exits 1 s').
Proof.
  intros Hexp Hread. simpl.
  assert (∀ appPkg, AppPkgConfig ctx appPkg s =
                    match loadConfig ctx s with
                    | Exits code s' => Exits code s'
                    | Returns _ s' => AppPkgConfig ctx appPkg s
                    end) as Happ.
  { intros appPkg. rewrite AppPkgConfig_eq.
    destruct (loadConfig ctx s); reflexivity. }
  revert Happ. rewrite loadConfig_eq. simpl.
  rewrite (expired_ltb _ Hexp), Hread.
  destruct (exitsOnFatal (FromContext w ctx)); simpl; intros Happ.
  - repeat split; try reflexivity. apply Happ.
  - repeat split; discriminate.
Qed.

(** C6.  [newConfig] takes [refreshPeriod] from [CONFIG_REFRESH_DURATION]
    when the variable is not empty and [time.ParseDuration] accepts it,
    and leaves the one minute default otherwise; on a value that does not
    parse its one call on the logger besides the five minute warning,
    which one minute does not trigger, is an [Info].  The constructor has
    no failing outcome: it is a plain function to the new object. *)
Theorem newConfig_refreshPeriod :
  let ds := Getenv w "CONFIG_REFRESH_DURATION" in
  let cfg := fst newConfig in
  (ds = "" →
   refreshPeriod cfg = time.Minute ∧ snd newConfig = []) ∧
  (∀ d, ds ≠ "" → ParseDuration w ds = inl d →
        refreshPeriod cfg = d ∧ callsOf Info (snd newConfig) = []) ∧
  (∀ e, ds ≠ "" → ParseDuration w ds = inr e →
        refreshPeriod cfg = time.Minute ∧
        snd newConfig =
        [mkCall Info [VString "CONFIG_REFRESH_DURATION parse error: %v";
                      VDuration time.Minute]]).
Proof.
  simpl. unfold newConfig. split; [|split].
  - intros ->. rewrite bool_decide_false by (intros H; apply H; reflexivity).
    split; reflexivity.
  - intros d Hne ->. rewrite bool_decide_true by assumption. simpl.
    split; [reflexivity|]. destruct (_ <? d); reflexivity.
  - intros e Hne ->. rewrite bool_decide_true by assumption.
    split; reflexivity.
Qed.

Lemma Since_zero r :
  time.unixEpoch <= time.rd_wall r →
  time.Since r time.zero = time.maxDuration.
Proof.
  intros Hr.
  assert (time.unixEpoch = 62135596800000000000) as He by reflexivity.
  assert (time.maxDuration = 9223372036854775807) as Hmax by reflexivity.
  assert (time.minDuration = -9223372036854775808) as Hmin by reflexivity.
  assert (time.wall (time.Now r) = time.rd_wall r) as Hw.
  { unfold time.Now. destruct (_ && _); reflexivity. }
  unfold time.Since, time.Sub. simpl.
  assert (time.saturate (time.wall (time.Now r) - 0) = time.maxDuration) as Hs.
  { rewrite Hw. unfold time.saturate.
    destruct (Z.ltb_spec (time.rd_wall r - 0) time.minDuration); [lia|].
    destruct (Z.ltb_spec time.maxDuration (time.rd_wall r - 0)); [reflexivity|lia]. }
  destruct (time.mono (time.Now r)); assumption.
Qed.

Lemma newConfig_isDuration :
  (∀ ds d, ParseDuration w ds = inl d → time.isDuration d) →
  time.isDuration (refreshPeriod (fst newConfig)).
Proof.
  intros Hparse. unfold newConfig.
  destruct (bool_decide _); [|simpl; vm_compute; split; discriminate].
  destruct (ParseDuration w _) as [d|e] eqn:Hd; simpl.
  - eapply Hparse. eassumption.
  - vm_compute; split; discriminate.
Qed.

(** C7.  The object [newConfig] makes has an empty snapshot and the zero
    [lastLoadTime]; and when [time.ParseDuration] yields [int64] values and
    the wall clock is not before the Unix epoch, the first [loadConfig]
    call finds the cache expired, whatever [refreshPeriod] is, and reads
    the database. *)
Theorem first_load_reads ctx :
  cache (globalConfig init) = ∅ ∧
  lastLoadTime (globalConfig init) = time.zero ∧
  storeReads init = 0%nat ∧
  ((∀ ds d, ParseDuration w ds = inl d → time.isDuration d) →
   time.unixEpoch <= time.rd_wall (clock w 0) →
   expired init ∧
   storeReads (final (loadConfig ctx init)) = 1%nat).
Proof.
  assert (cache (fst newConfig) = ∅ ∧ lastLoadTime (fst newConfig) = time.zero)
    as [Hcache Htime].
  { unfold newConfig. destruct (bool_decide _); [|split; reflexivity].
    destruct (ParseDuration w _); split; reflexivity. }
  split; [assumption|]. split; [assumption|]. split; [reflexivity|].
  intros Hparse Hclock.
  assert (expired init) as Hexp.
  { unfold expired, elapsed. simpl. rewrite Htime, (Since_zero _ Hclock).
    apply (newConfig_isDuration Hparse). }
  split; [assumption|].
  rewrite loadConfig_eq. cbv zeta. rewrite (expired_ltb _ Hexp).
  destruct (ReadAPIConfigs w ctx _); [reflexivity|].
  destruct (exitsOnFatal _); reflexivity.
Qed.

(** C9.  [AppPkgConfig] drops what [loadConfig] returns: when [loadConfig]
    returns an error (the read failed and [Fatalf] came back), the object
    is as it was before the call, and [AppPkgConfig] goes on to look the
    package up in that unchanged snapshot and returns a [nil] error. *)
Theorem AppPkgConfig_discards_error ctx appPkg s e s' :
  loadConfig ctx s = Returns (Some e) s' →
  globalConfig s' = globalConfig s ∧
  ReadAPIConfigs w ctx (storeReads s) = inr e ∧
  ∃ s'', AppPkgConfig ctx appPkg s =
         Returns (cache (globalConfig s) !! appPkg, None) s'' ∧
         globalConfig s'' = globalConfig s.
Proof.
  intros Hload. rewrite AppPkgConfig_eq, Hload.
  rewrite loadConfig_eq in Hload. simpl in Hload.
  destruct (_ <? _); [discriminate|].
  destruct (ReadAPIConfigs w ctx (storeReads s)) as [configs|err];
    [discriminate|].
  destruct (exitsOnFatal _); [discriminate|].
  injection Hload as -> <-. simpl.
  split; [reflexivity|]. split; [reflexivity|].
  destruct (cache (globalConfig s) !! appPkg); eexists; split; reflexivity.
Qed.

(** C10.  Once [loadConfig] has returned, [AppPkgConfig] returns a [nil]
    record with a [nil] error when the package name is not in the snapshot
    and the record, never [nil], with a [nil] error when it is: its result
    is a record pointer and an error, without a boolean, so that the [nil]
    record is what tells the caller. *)
Theorem AppPkgConfig_not_found ctx appPkg s e s1 :
  loadConfig ctx s = Returns e s1 →
  (cache (globalConfig s1) !! appPkg = None →
   ∃ s', AppPkgConfig ctx appPkg s = Returns (None, None) s' ∧
         globalConfig s' = globalConfig s1) ∧
  (∀ r, cache (globalConfig s1) !! appPkg = Some r →
        AppPkgConfig ctx appPkg s = Returns (Some r, None) s1).
Proof.
  intros Hload. rewrite AppPkgConfig_eq, Hload. split.
  - intros ->. eexists. split; reflexivity.
  - intros r ->. reflexivity.
Qed.

End Config.

Arguments mkAPIConfig {Fields} AppPackageName fields.
Arguments AppPackageName {Fields} a.
Arguments fields {Fields} a.
Arguments mkConfig {Fields} lastLoadTime cache refreshPeriod.
Arguments lastLoadTime {Fields} c.
Arguments cache {Fields} c.
Arguments refreshPeriod {Fields} c.
Arguments mkWorld {Fields Context}.
Arguments Getenv {Fields Context} w.
Arguments ParseDuration {Fields Context} w.
Arguments clock {Fields Context} w.
Arguments ReadAPIConfigs {Fields Context} w.
Arguments FromContext {Fields Context} w.
Arguments mkState {Fields} globalConfig log clockReads storeReads.
Arguments globalConfig {Fields} s.
Arguments log {Fields} s.
Arguments clockReads {Fields} s.
Arguments storeReads {Fields} s.
Arguments Returns {Fields A} a s.
Arguments Exits {Fields A} code s.
Arguments final {Fields A} r.
Arguments newConfig {Fields Context} w.
Arguments init {Fields Context} w.
Arguments loadConfig {Fields Context} w ctx.
Arguments appConfig {Fields} appPkg.
Arguments AppPkgConfig {Fields Context} w ctx appPkg.
Arguments elapsed {Fields Context} w s.
Arguments expired {Fields Context} w s.

(** ** A concrete world

    Two applications, one of them registered twice; the clocks start in
    2020 and advance by one second per query. *)

Definition recA : APIConfig Z := mkAPIConfig "com.app.a" 1.
Definition recB : APIConfig Z := mkAPIConfig "com.app.b" 2.
Definition recA2 : APIConfig Z := mkAPIConfig "com.app.a" 3.

(** Agrees with [time.ParseDuration] on the three strings used below:
    ["30s"], ["10m"] and ["notaduration"]. *)
Definition sampleParse (ds : string) : time.Duration + string :=
  if String.eqb ds "30s" then inl (30 * time.Second)
  else if String.eqb ds "10m" then inl (10 * time.Minute)
  else inr "time: invalid duration".

Definition sampleClock (n : nat) : time.Reading :=
  time.mkReading (time.unixEpoch + 1600000000 * time.Second + Z.of_nat n * time.Second)
                 (Z.of_nat n * time.Second).

(** [env] is the value of [CONFIG_REFRESH_DURATION], [reads] what the
    successive database reads return, [exits] whether [Fatalf] ends the
    process. *)
Definition sampleWorld (env : string) (reads : list (list (APIConfig Z) + string))
    (exits : bool) : World Z unit :=
  mkWorld
    (λ k, if String.eqb k "CONFIG_REFRESH_DURATION" then env else "")
    sampleParse
    sampleClock
    (λ _ n, default (inr "database unreachable") (reads !! n))
    (λ _, mkLogger exits).

Definition wOk : World Z unit := sampleWorld "" [inl [recA; recB; recA2]] true.
Definition wDown : World Z unit := sampleWorld "" [inr "connection refused"] true.
Definition wDownQuiet : World Z unit := sampleWorld "" [inr "connection refused"] false.
Definition w30s : World Z unit := sampleWorld "30s" [] true.
Definition wBad : World Z unit := sampleWorld "notaduration" [] true.

(** The state after the first [loadConfig] in [wOk]. *)
Definition sLoaded : State Z :=
  final (loadConfig wOk tt (init wOk)).

(** The state after the first [loadConfig] in [wDownQuiet]. *)
Definition sQuiet : State Z :=
  final (loadConfig wDownQuiet tt (init wDownQuiet)).

(** ** The theorems at the concrete world *)

Lemma lookup_after_load_witness :
  expired wOk (init wOk) ∧
  ReadAPIConfigs wOk tt 0 = inl [recA; recB; recA2] ∧
  ∃ s', loadConfig wOk tt (init wOk) = Returns None s' ∧
        appConfig "com.app.c" s' = Returns (None, false) s'.
Proof.
  assert (expired wOk (init wOk)) as h1
    by (vm_compute; discriminate).
  assert (ReadAPIConfigs wOk tt 0 = inl [recA; recB; recA2]) as h2
    by reflexivity.
  split; [exact h1|]. split; [exact h2|].
  destruct (lookup_after_load _ _ wOk tt _ _ h1 h2) as (s' & Hload & _ & Habs).
  exists s'. split; [exact Hload|].
  apply (Habs "com.app.c"). intros r Hin.
  repeat (apply elem_of_cons in Hin as [->|Hin]; [discriminate|]).
  inversion Hin.
Defined.

Lemma loadConfig_rebuilds_witness :
  expired wOk (init wOk) ∧
  ReadAPIConfigs wOk tt 0 = inl [recA; recB; recA2] ∧
  ∃ s', loadConfig wOk tt (init wOk) = Returns None s' ∧
        cache (globalConfig s') !! "com.app.a" = Some recA2 ∧
        lastLoadTime (globalConfig s') = time.Now (sampleClock 1).
Proof.
  assert (expired wOk (init wOk)) as h1
    by (vm_compute; discriminate).
  assert (ReadAPIConfigs wOk tt 0 = inl [recA; recB; recA2]) as h2
    by reflexivity.
  split; [exact h1|]. split; [exact h2|].
  destruct (loadConfig_rebuilds _ _ wOk tt _ _ h1 h2)
    as (s' & Hload & _ & _ & _ & Hlast & Htime).
  exists s'. split; [exact Hload|]. split; [|exact Htime].
  apply (Hlast 2%nat recA2). split; [reflexivity|].
  intros j r' Hj Hr'. apply lookup_lt_Some in Hr'. simpl in Hr'. lia.
Defined.

Lemma loadConfig_fresh_witness :
  elapsed wOk sLoaded < refreshPeriod (globalConfig sLoaded) ∧
  ∃ s', loadConfig wOk tt sLoaded = Returns None s' ∧
        storeReads s' = 1%nat ∧
        globalConfig s' = globalConfig sLoaded.
Proof.
  assert (elapsed wOk sLoaded
          < refreshPeriod (globalConfig sLoaded)) as h1
    by (vm_compute; reflexivity).
  split; [exact h1|].
  destruct (loadConfig_fresh _ _ wOk tt sLoaded h1)
    as (s' & Hload & Hreads & _ & _ & Hcfg & _).
  exists s'. split; [exact Hload|]. split; [|exact Hcfg].
  rewrite Hreads. reflexivity.
Defined.

Lemma AppPkgConfig_nil_error_witness :
  match AppPkgConfig wOk tt "com.app.c" (init wOk) with
  | Returns (r, err) s' =>
      err = None ∧
      (cache (globalConfig s') !! "com.app.c" = None →
       r = None ∧ last (log s') = Some (unconfiguredCall "com.app.c"))
  | Exits code s' =>
      expired wOk (init wOk) ∧
      (∃ e, ReadAPIConfigs wOk tt (storeReads (init wOk)) = inr e) ∧
      exitsOnFatal (FromContext wOk tt) = true
  end.
Proof.
  exact (AppPkgConfig_nil_error _ _ wOk tt "com.app.c" (init wOk)).
Defined.

Lemma loadConfig_read_error_witness :
  expired wDown (init wDown) ∧
  ReadAPIConfigs wDown tt 0 = inr "connection refused" ∧
  exitsOnFatal (FromContext wDown tt) = true ∧
  ∃ s', AppPkgConfig wDown tt "com.app.a" (init wDown) = Exits 1 s' ∧
        log s' = [fatalCall "connection refused"] ∧
        cache (globalConfig s') = ∅ ∧
        lastLoadTime (globalConfig s') = time.zero.
Proof.
  assert (expired wDown (init wDown)) as h1 by (vm_compute; discriminate).
  assert (ReadAPIConfigs wDown tt 0 = inr "connection refused") as h2
    by reflexivity.
  assert (exitsOnFatal (FromContext wDown tt) = true) as h3 by reflexivity.
  split; [exact h1|]. split; [exact h2|]. split; [exact h3|].
  destruct (loadConfig_read_error _ _ wDown tt _ _ h1 h2)
    as (Hlog & _ & Hcache & Htime & Hexit).
  destruct (Hexit h3) as [_ Happ].
  eexists. split; [apply Happ|].
  split; [exact Hlog|]. split; [exact Hcache|exact Htime].
Defined.

Lemma newConfig_refreshPeriod_witness :
  (Getenv w30s "CONFIG_REFRESH_DURATION" ≠ "" ∧
   ParseDuration w30s (Getenv w30s "CONFIG_REFRESH_DURATION") = inl (30 * time.Second) ∧
   refreshPeriod (fst (newConfig w30s)) = 30 * time.Second) ∧
  (Getenv wBad "CONFIG_REFRESH_DURATION" ≠ "" ∧
   ParseDuration wBad (Getenv wBad "CONFIG_REFRESH_DURATION") = inr "time: invalid duration" ∧
   refreshPeriod (fst (newConfig wBad)) = time.Minute) ∧
  (Getenv wOk "CONFIG_REFRESH_DURATION" = "" ∧
   refreshPeriod (fst (newConfig wOk)) = time.Minute).
Proof.
  split; [|split].
  - assert (Getenv w30s "CONFIG_REFRESH_DURATION" ≠ "") as h1 by discriminate.
    assert (ParseDuration w30s (Getenv w30s "CONFIG_REFRESH_DURATION")
            = inl (30 * time.Second)) as h2 by reflexivity.
    split; [exact h1|]. split; [exact h2|].
    exact (proj1 (proj1 (proj2 (newConfig_refreshPeriod _ _ w30s)) _ h1 h2)).
  - assert (Getenv wBad "CONFIG_REFRESH_DURATION" ≠ "") as h1 by discriminate.
    assert (ParseDuration wBad (Getenv wBad "CONFIG_REFRESH_DURATION")
            = inr "time: invalid duration") as h2 by reflexivity.
    split; [exact h1|]. split; [exact h2|].
    exact (proj1 (proj2 (proj2 (newConfig_refreshPeriod _ _ wBad)) _ h1 h2)).
  - assert (Getenv wOk "CONFIG_REFRESH_DURATION" = "") as h1 by reflexivity.
    split; [exact h1|].
    exact (proj1 (proj1 (newConfig_refreshPeriod _ _ wOk) h1)).
Defined.

Lemma sampleParse_isDuration ds d :
  sampleParse ds = inl d → time.isDuration d.
Proof.
  unfold sampleParse.
  destruct (String.eqb ds "30s"); [intros [= <-]; vm_compute; split; discriminate|].
  destruct (String.eqb ds "10m"); [intros [= <-]; vm_compute; split; discriminate|].
  discriminate.
Defined.

Lemma first_load_reads_witness :
  (∀ ds d, ParseDuration w30s ds = inl d → time.isDuration d) ∧
  time.unixEpoch <= time.rd_wall (clock w30s 0) ∧
  expired w30s (init w30s) ∧
  storeReads (final (loadConfig w30s tt (init w30s))) = 1%nat.
Proof.
  assert (∀ ds d, ParseDuration w30s ds = inl d → time.isDuration d) as h1
    by exact sampleParse_isDuration.
  assert (time.unixEpoch <= time.rd_wall (clock w30s 0)) as h2
    by (vm_compute; discriminate).
  split; [exact h1|]. split; [exact h2|].
  exact (proj2 (proj2 (proj2 (first_load_reads _ _ w30s tt))) h1 h2).
Defined.

Lemma AppPkgConfig_discards_error_witness :
  loadConfig wDownQuiet tt (init wDownQuiet)
  = Returns (Some "connection refused") sQuiet ∧
  ∃ s'', AppPkgConfig wDownQuiet tt "com.app.a" (init wDownQuiet)
         = Returns (cache (globalConfig (init wDownQuiet)) !! "com.app.a", None) s'' ∧
         globalConfig s'' = globalConfig (init wDownQuiet).
Proof.
  assert (loadConfig wDownQuiet tt (init wDownQuiet)
          = Returns (Some "connection refused") sQuiet) as h1
    by (vm_compute; reflexivity).
  split; [exact h1|].
  destruct (AppPkgConfig_discards_error _ _ wDownQuiet tt "com.app.a" _ _ _ h1)
    as (_ & _ & s'' & Hrun & Hcfg).
  exists s''. split; [exact Hrun|exact Hcfg].
Defined.

Lemma AppPkgConfig_not_found_witness :
  loadConfig wOk tt (init wOk) = Returns None sLoaded ∧
  cache (globalConfig sLoaded) !! "com.app.c" = None ∧
  cache (globalConfig sLoaded) !! "com.app.b" = Some recB ∧
  (∃ s', AppPkgConfig wOk tt "com.app.c" (init wOk) = Returns (None, None) s') ∧
  AppPkgConfig wOk tt "com.app.b" (init wOk) = Returns (Some recB, None) sLoaded.
Proof.
  assert (loadConfig wOk tt (init wOk) = Returns None sLoaded) as h1
    by (vm_compute; reflexivity).
  assert (cache (globalConfig sLoaded) !! "com.app.c" = None) as h2
    by (vm_compute; reflexivity).
  assert (cache (globalConfig sLoaded) !! "com.app.b" = Some recB) as h3
    by (vm_compute; reflexivity).
  split; [exact h1|]. split; [exact h2|]. split; [exact h3|].
  destruct (AppPkgConfig_not_found _ _ wOk tt "com.app.c" _ _ _ h1) as [Habs _].
  destruct (AppPkgConfig_not_found _ _ wOk tt "com.app.b" _ _ _ h1) as [_ Hpres].
  split.
  - destruct (Habs h2) as (s' & Hrun & _). exists s'. exact Hrun.
  - exact (Hpres _ h3).
Defined.

(** ** Runs of the public entry point

    States the process can be in, sequences of calls, and what holds along
    them. *)

Section Runs.

Variables (Fields Ctx : Type) (w : World Fields Ctx).

#[local] Instance Runs_ret : MRet (M Fields) := @ret Fields.
#[local] Instance Runs_bind : MBind (M Fields) := λ A B k m, bind Fields m k.

(** The states reached from the package initialiser by calls of
    [AppPkgConfig] that returned; the other functions of the file are not
    exported. *)
Inductive Reachable : State Fields → Prop :=
| reach_init : Reachable (init w)
| reach_call ctx appPkg s r s' :
    Reachable s →
    AppPkgConfig w ctx appPkg s = Returns r s' →
    Reachable s'.

(** Every entry of the cache sits under its own package name. *)
Definition keyed (c : config Fields) : Prop :=
  ∀ k r, cache c !! k = Some r → AppPackageName r = k.

(** [lastLoadTime] is the zero [Time] or what an earlier clock query of the
    process gave to [time.Now()]. *)
Definition stamped (s : State Fields) : Prop :=
  lastLoadTime (globalConfig s) = time.zero ∨
  ∃ j, (j < clockReads s)%nat ∧
       lastLoadTime (globalConfig s) = time.Now (clock w j).

(** Neither clock of the world ever steps back, and the wall clock starts
    at or after the first instant. *)
Definition monotoneClock : Prop :=
  0 <= time.rd_wall (clock w 0) ∧
  ∀ i j, (i ≤ j)%nat →
         time.rd_wall (clock w i) <= time.rd_wall (clock w j) ∧
         time.rd_mono (clock w i) <= time.rd_mono (clock w j).

(** One goroutine making the calls of [calls] one after the other and
    collecting what they return. *)
Fixpoint serve (calls : list (Ctx * string))
  : M Fields (list (option (APIConfig Fields) * error)) :=
  match calls with
  | [] => mret []
  | (ctx, appPkg) :: rest =>
      r ← AppPkgConfig w ctx appPkg;
      rs ← serve rest;
      mret (r :: rs)
  end.

(** What a call for [appPkg] returns when served from the cache of [c]. *)
Definition served (c : config Fields) (call : Ctx * string)
  : option (APIConfig Fields) * error :=
  (cache c !! snd call, None).

End Runs.

Arguments Reachable {Fields Ctx} w s.
Arguments keyed {Fields} c.
Arguments stamped {Fields Ctx} w s.
Arguments monotoneClock {Fields Ctx} w.
Arguments serve {Fields Ctx} w calls.
Arguments served {Fields Ctx} c call.

(** Worlds for the runs below: a refresh period of zero, and a database
    that returns the same two records in either order. *)
Definition parseZero (ds : string) : time.Duration + string :=
  if String.eqb ds "0s" then inl 0 else sampleParse ds.

Definition wZero : World Z unit :=
  mkWorld (λ k, if String.eqb k "CONFIG_REFRESH_DURATION" then "0s" else "")
          parseZero sampleClock
          (λ _ n, inl [recA; recB])
          (λ _, mkLogger true).

Definition w10m : World Z unit := sampleWorld "10m" [] true.

Definition wOrders : World Z unit :=
  sampleWorld "" [inl [recA; recB]; inl [recB; recA]] true.

(** A state of [wOrders] about to make its second database read. *)
Definition sSecond : State Z :=
  mkState (globalConfig (init wOrders)) [] 0 1.

(** ** Properties of runs *)

Section RunProperties.

Variables (Fields Ctx : Type) (w : World Fields Ctx).

(** The state [AppPkgConfig] leaves, by the path its [loadConfig] took. *)
Lemma AppPkgConfig_final ctx appPkg s :
  let s' := final (AppPkgConfig w ctx appPkg s) in
  (elapsed w s < refreshPeriod (globalConfig s) ∧
   globalConfig s' = globalConfig s ∧
   clockReads s' = S (clockReads s) ∧ storeReads s' = storeReads s) ∨
  (expired w s ∧
   ∃ configs, ReadAPIConfigs w ctx (storeReads s) = inl configs ∧
     globalConfig s' = mkConfig (time.Now (clock w (S (clockReads s))))
                                (build Fields ∅ configs)
                                (refreshPeriod (globalConfig s)) ∧
     clockReads s' = S (S (clockReads s)) ∧
     storeReads s' = S (storeReads s)) ∨
  (expired w s ∧
   ∃ e, ReadAPIConfigs w ctx (storeReads s) = inr e ∧
     globalConfig s' = globalConfig s ∧
     clockReads s' = S (clockReads s) ∧ storeReads s' = S (storeReads s)).
Proof.
  rewrite AppPkgConfig_eq, loadConfig_eq. cbv zeta.
  destruct (Z.ltb_spec (elapsed w s) (refreshPeriod (globalConfig s)))
    as [Hlt|Hge].
  - left. split; [assumption|]. simpl.
    destruct (cache (globalConfig s) !! appPkg); repeat split.
  - right.
    destruct (ReadAPIConfigs w ctx (storeReads s)) as [configs|e].
    + left. split; [assumption|]. exists configs. split; [reflexivity|].
      simpl. destruct (build Fields ∅ configs !! appPkg); repeat split.
    + right. split; [assumption|]. exists e. split; [reflexivity|].
      destruct (exitsOnFatal (FromContext w ctx)); simpl;
        [repeat split|].
      destruct (cache (globalConfig s) !! appPkg); repeat split.
Qed.

Lemma keyed_build configs :
  keyed (mkConfig time.zero (build Fields ∅ configs) 0).
Proof.
  intros k r Hk. simpl in Hk.
  destruct (build_from Fields _ _ _ _ Hk) as [[Hname _]|Hempty];
    [assumption|].
  rewrite lookup_empty in Hempty. discriminate.
Qed.

(** What every reachable state satisfies. *)
Lemma Reachable_inv s :
  Reachable w s →
  keyed (globalConfig s) ∧
  refreshPeriod (globalConfig s) = refreshPeriod (fst (newConfig w)) ∧
  stamped w s.
Proof.
  induction 1 as [|ctx appPkg s r s' Hreach (Hkey & Hrp & Hst) Hcall].
  - assert (cache (fst (newConfig w)) = ∅ ∧
            lastLoadTime (fst (newConfig w)) = time.zero) as [Hc Ht].
    { unfold newConfig. destruct (bool_decide _); [|split; reflexivity].
      destruct (ParseDuration w _); split; reflexivity. }
    split; [|split].
    + intros k r. simpl. rewrite Hc, lookup_empty. discriminate.
    + reflexivity.
    + left. exact Ht.
  - pose proof (AppPkgConfig_final ctx appPkg s) as Hfin.
    rewrite Hcall in Hfin. simpl in Hfin.
    destruct Hfin as [(_ & Hg & Hc & _)
                     |[(_ & configs & _ & Hg & Hc & _)
                      |(_ & e & _ & Hg & Hc & _)]].
    + rewrite Hg. split; [assumption|]. split; [assumption|].
      destruct Hst as [Hz|(j & Hj & Hz)]; [left|right].
      * rewrite Hg. assumption.
      * exists j. rewrite Hg, Hc. split; [lia|assumption].
    + rewrite Hg. split; [|split].
      * intros k r0 Hk. apply (keyed_build configs k r0). exact Hk.
      * assumption.
      * right. exists (S (clockReads s)). rewrite Hg, Hc.
        split; [lia|reflexivity].
    + rewrite Hg. split; [assumption|]. split; [assumption|].
      destruct Hst as [Hz|(j & Hj & Hz)]; [left|right].
      * rewrite Hg. assumption.
      * exists j. rewrite Hg, Hc. split; [lia|assumption].
Qed.

(** X1.  Whatever state a call of [AppPkgConfig] starts in and however it
    ends, it reads the database once if the cache is expired at its clock
    query and not at all otherwise, it queries the clock once or twice, and
    it appends at most two calls to the log without touching what was
    logged before. *)
Theorem AppPkgConfig_accounting ctx appPkg s :
  let s' := final (AppPkgConfig w ctx appPkg s) in
  storeReads s' =
    (if elapsed w s <? refreshPeriod (globalConfig s)
     then storeReads s else S (storeReads s)) ∧
  (clockReads s' = S (clockReads s) ∨ clockReads s' = S (S (clockReads s))) ∧
  ∃ l, log s' = log s ++ l ∧ (length l ≤ 2)%nat.
Proof.
  rewrite AppPkgConfig_eq, loadConfig_eq. cbv zeta.
  destruct (elapsed w s <? refreshPeriod (globalConfig s)).
  - simpl. destruct (cache (globalConfig s) !! appPkg); simpl.
    + split; [reflexivity|]. split; [left; reflexivity|].
      exists []. rewrite app_nil_r. split; [reflexivity|simpl; lia].
    + split; [reflexivity|]. split; [left; reflexivity|].
      eexists. split; [reflexivity|simpl; lia].
  - destruct (ReadAPIConfigs w ctx (storeReads s)) as [configs|e].
    + simpl. destruct (build Fields ∅ configs !! appPkg); simpl.
      * split; [reflexivity|]. split; [right; reflexivity|].
        eexists. split; [reflexivity|simpl; lia].
      * split; [reflexivity|]. split; [right; reflexivity|].
        exists [loadedCall; unconfiguredCall appPkg].
        split; [rewrite <- app_assoc; reflexivity|simpl; lia].
    + destruct (exitsOnFatal (FromContext w ctx)); simpl.
      * split; [reflexivity|]. split; [left; reflexivity|].
        eexists. split; [reflexivity|simpl; lia].
      * destruct (cache (globalConfig s) !! appPkg); simpl.
        -- split; [reflexivity|]. split; [left; reflexivity|].
           eexists. split; [reflexivity|simpl; lia].
        -- split; [reflexivity|]. split; [left; reflexivity|].
           exists [fatalCall e; unconfiguredCall appPkg].
           split; [rewrite <- app_assoc; reflexivity|simpl; lia].
Qed.

(** X2.  A call of [AppPkgConfig] that returns has logged the [Errorf]
    naming the package exactly once when the record it returns is [nil],
    and no [Errorf] at all when it returns a record. *)
Theorem AppPkgConfig_diagnostic_iff_nil ctx appPkg s r err s' :
  AppPkgConfig w ctx appPkg s = Returns (r, err) s' →
  callsOf Errorf (logged Fields s s') =
    match r with
    | None => [unconfiguredCall appPkg]
    | Some _ => []
    end.
Proof.
  rewrite AppPkgConfig_eq, loadConfig_eq. cbv zeta.
  assert (∀ l s2, log s2 = log s ++ l →
                  callsOf Errorf (logged Fields s s2) = callsOf Errorf l) as Hl.
  { intros l s2 H2. rewrite (logged_app Fields s s2 l H2). reflexivity. }
  destruct (elapsed w s <? refreshPeriod (globalConfig s)).
  - simpl. destruct (cache (globalConfig s) !! appPkg);
      intros [= <- <- <-].
    + rewrite (Hl []); [reflexivity|]. simpl. rewrite app_nil_r. reflexivity.
    + rewrite (Hl [unconfiguredCall appPkg]); reflexivity.
  - destruct (ReadAPIConfigs w ctx (storeReads s)) as [configs|e].
    + simpl. destruct (build Fields ∅ configs !! appPkg);
        intros [= <- <- <-].
      * rewrite (Hl [loadedCall]); reflexivity.
      * rewrite (Hl [loadedCall; unconfiguredCall appPkg]); [reflexivity|].
        simpl. rewrite <- app_assoc. reflexivity.
    + destruct (exitsOnFatal (FromContext w ctx)); simpl; [discriminate|].
      destruct (cache (globalConfig s) !! appPkg); intros [= <- <- <-].
      * rewrite (Hl [fatalCall e]); reflexivity.
      * rewrite (Hl [fatalCall e; unconfiguredCall appPkg]); [reflexivity|].
        simpl. rewrite <- app_assoc. reflexivity.
Qed.

(** X3.  In every reachable state, a record that [AppPkgConfig] returns is
    a record of the package that was asked for. *)
Theorem AppPkgConfig_returns_requested ctx appPkg s r err s' :
  Reachable w s →
  AppPkgConfig w ctx appPkg s = Returns (Some r, err) s' →
  AppPackageName r = appPkg.
Proof.
  intros Hreach Hcall.
  assert (Reachable w s') as Hreach' by (eapply reach_call; eassumption).
  destruct (Reachable_inv s' Hreach') as (Hkey & _ & _).
  apply Hkey.
  rewrite AppPkgConfig_eq in Hcall.
  destruct (loadConfig w ctx s) as [e s1|code s1]; [|discriminate].
  destruct (cache (globalConfig s1) !! appPkg) as [r1|] eqn:Hk.
  - injection Hcall as <- _ <-. exact Hk.
  - discriminate.
Qed.

(** X4.  No call changes [refreshPeriod]: in every reachable state it is
    the value [newConfig] chose. *)
Theorem refreshPeriod_fixed s :
  Reachable w s →
  refreshPeriod (globalConfig s) = refreshPeriod (fst (newConfig w)).
Proof.
  intros Hreach. destruct (Reachable_inv s Hreach) as (_ & Hrp & _).
  exact Hrp.
Qed.

(** A call that finds the cache fresh answers from it and changes nothing
    but the clock count and the log. *)
Lemma AppPkgConfig_fresh ctx appPkg s :
  elapsed w s < refreshPeriod (globalConfig s) →
  ∃ s1, AppPkgConfig w ctx appPkg s
        = Returns (cache (globalConfig s) !! appPkg, None) s1 ∧
        globalConfig s1 = globalConfig s ∧
        storeReads s1 = storeReads s ∧
        clockReads s1 = S (clockReads s).
Proof.
  intros Hfresh.
  rewrite AppPkgConfig_eq, (loadConfig_skip Fields Ctx w ctx s Hfresh). simpl.
  destruct (cache (globalConfig s) !! appPkg); eexists; repeat split.
Qed.

Lemma serve_fresh calls :
  ∀ s,
    (∀ j, (j < length calls)%nat →
          time.Since (clock w (clockReads s + j))
                     (lastLoadTime (globalConfig s))
          < refreshPeriod (globalConfig s)) →
    ∃ s', serve w calls s = Returns (served (globalConfig s) <$> calls) s' ∧
          globalConfig s' = globalConfig s ∧
          storeReads s' = storeReads s ∧
          clockReads s' = (clockReads s + length calls)%nat.
Proof.
  induction calls as [|[ctx appPkg] rest IH]; intros s Hfresh.
  - exists s. simpl. repeat split. lia.
  - assert (elapsed w s < refreshPeriod (globalConfig s)) as H0.
    { unfold elapsed. specialize (Hfresh 0%nat). rewrite Nat.add_0_r in Hfresh.
      apply Hfresh. simpl. lia. }
    destruct (AppPkgConfig_fresh ctx appPkg s H0) as (s1 & Hcall & Hg & Hr & Hc).
    destruct (IH s1) as (s' & Hrest & Hg' & Hr' & Hc').
    { intros j Hj. rewrite Hg, Hc.
      replace (S (clockReads s) + j)%nat with (clockReads s + S j)%nat by lia.
      apply Hfresh. simpl. lia. }
    exists s'. split; [|split; [|split]].
    + simpl. unfold mbind, Runs_bind, bind. rewrite Hcall, Hrest.
      rewrite Hg. reflexivity.
    + congruence.
    + congruence.
    + rewrite Hc', Hc. simpl. lia.
Qed.

(** X5.  One goroutine, one refresh period: when the first of a sequence of
    calls reloads the cache and every later call queries the clock less
    than [refreshPeriod] after that reload, the whole sequence reads the
    database exactly once and every call is answered from the snapshot of
    that one read. *)
Theorem one_read_per_period ctx appPkg calls s configs :
  expired w s →
  ReadAPIConfigs w ctx (storeReads s) = inl configs →
  (∀ j, (j < length calls)%nat →
        time.Since (clock w (S (S (clockReads s)) + j))
                   (time.Now (clock w (S (clockReads s))))
        < refreshPeriod (globalConfig s)) →
  ∃ s', serve w ((ctx, appPkg) :: calls) s
        = Returns ((λ call, (build Fields ∅ configs !! snd call, None))
                     <$> ((ctx, appPkg) :: calls)) s' ∧
        storeReads s' = S (storeReads s) ∧
        cache (globalConfig s') = build Fields ∅ configs.
Proof.
  intros Hexp Hread Hfresh.
  pose proof (AppPkgConfig_eq Fields Ctx w ctx appPkg s) as Hcall.
  rewrite (loadConfig_reload Fields Ctx w ctx s configs Hexp Hread) in Hcall.
  simpl in Hcall.
  assert (∃ s1, AppPkgConfig w ctx appPkg s
                = Returns (build Fields ∅ configs !! appPkg, None) s1 ∧
                globalConfig s1
                = mkConfig (time.Now (clock w (S (clockReads s))))
                           (build Fields ∅ configs)
                           (refreshPeriod (globalConfig s)) ∧
                storeReads s1 = S (storeReads s) ∧
                clockReads s1 = S (S (clockReads s)))
    as (s1 & Hcall1 & Hg & Hr & Hc).
  { destruct (build Fields ∅ configs !! appPkg);
      eexists; (split; [exact Hcall|repeat split]). }
  destruct (serve_fresh calls s1) as (s' & Hrest & Hg' & Hr' & _).
  { intros j Hj. rewrite Hg, Hc. simpl. apply Hfresh. assumption. }
  exists s'. split; [|split].
  - simpl. unfold mbind, Runs_bind, bind. rewrite Hcall1, Hrest, Hg.
    reflexivity.
  - congruence.
  - rewrite Hg', Hg. reflexivity.
Qed.

Lemma saturate_nonneg d : 0 <= d → 0 <= time.saturate d.
Proof.
  intros Hd. unfold time.saturate.
  assert (time.maxDuration = 9223372036854775807) as Hmax by reflexivity.
  assert (time.minDuration = -9223372036854775808) as Hmin by reflexivity.
  destruct (Z.ltb_spec d time.minDuration); [lia|].
  destruct (Z.ltb_spec time.maxDuration d); lia.
Qed.

Lemma wall_Now r : time.wall (time.Now r) = time.rd_wall r.
Proof. unfold time.Now. destruct (_ && _); reflexivity. Qed.

Lemma mono_Now r m : time.mono (time.Now r) = Some m → m = time.rd_mono r.
Proof.
  unfold time.Now. destruct (_ && _); simpl; [|discriminate].
  intros [= <-]. reflexivity.
Qed.

(** With clocks that never step back, the time since a stamp taken earlier
    is not negative. *)
Lemma elapsed_nonneg s :
  monotoneClock w → stamped w s → 0 <= elapsed w s.
Proof.
  intros [H0 Hmono] Hst. unfold elapsed.
  set (r := clock w (clockReads s)).
  assert (0 <= time.rd_wall r) as Hr.
  { destruct (Hmono 0%nat (clockReads s)) as [Hw _]; [lia|]. subst r. lia. }
  destruct Hst as [->|(j & Hj & ->)].
  - unfold time.Since, time.Sub. simpl.
    assert (0 <= time.saturate (time.wall (time.Now r) - 0)) as Hs.
    { apply saturate_nonneg. rewrite wall_Now. lia. }
    destruct (time.mono (time.Now r)); exact Hs.
  - destruct (Hmono j (clockReads s)) as [Hw Hm]; [lia|].
    unfold time.Since.
    destruct (time.mono (time.Now (clock w j))) as [m|] eqn:Hj'.
    + unfold time.Sub. simpl. rewrite Hj'.
      apply mono_Now in Hj'. apply saturate_nonneg. subst r m. lia.
    + unfold time.Sub. rewrite Hj'.
      assert (0 <= time.saturate (time.wall (time.Now r)
                                  - time.wall (time.Now (clock w j)))) as Hs.
      { apply saturate_nonneg. rewrite !wall_Now. subst r. lia. }
      destruct (time.mono (time.Now r)); exact Hs.
Qed.

(** X6.  A refresh period of zero or less switches the cache off: with
    clocks that never step back, every call of [AppPkgConfig] in a
    reachable state reads the database. *)
Theorem nonpositive_period_always_reads ctx appPkg s :
  monotoneClock w →
  refreshPeriod (fst (newConfig w)) <= 0 →
  Reachable w s →
  expired w s ∧
  storeReads (final (AppPkgConfig w ctx appPkg s)) = S (storeReads s).
Proof.
  intros Hclock Hrp Hreach.
  destruct (Reachable_inv s Hreach) as (_ & Hfix & Hst).
  pose proof (elapsed_nonneg s Hclock Hst) as Hel.
  assert (expired w s) as Hexp by (unfold expired; lia).
  split; [assumption|].
  destruct (AppPkgConfig_final ctx appPkg s)
    as [(Hlt & _)|[(_ & _ & _ & _ & _ & Hr)|(_ & _ & _ & _ & _ & Hr)]];
    [unfold expired in Hexp; lia|exact Hr|exact Hr].
Qed.

Lemma saturate_mono d1 d2 :
  d1 <= d2 → time.saturate d1 <= time.saturate d2.
Proof.
  intros Hd. unfold time.saturate.
  assert (time.maxDuration = 9223372036854775807) as Hmax by reflexivity.
  assert (time.minDuration = -9223372036854775808) as Hmin by reflexivity.
  destruct (Z.ltb_spec d1 time.minDuration);
    destruct (Z.ltb_spec d2 time.minDuration);
    destruct (Z.ltb_spec time.maxDuration d1);
    destruct (Z.ltb_spec time.maxDuration d2); lia.
Qed.

(** Against a fixed stamp, [time.Since] does not decrease from one clock
    reading to a later one. *)
Lemma Since_mono r1 r2 t :
  time.rd_wall r1 <= time.rd_wall r2 →
  time.rd_mono r1 <= time.rd_mono r2 →
  time.Since r1 t <= time.Since r2 t.
Proof.
  intros Hw Hm. unfold time.Since, time.Sub.
  destruct (time.mono t) as [m|] eqn:Ht; simpl.
  - apply saturate_mono. lia.
  - assert (time.saturate (time.wall (time.Now r1) - time.wall t)
            <= time.saturate (time.wall (time.Now r2) - time.wall t)) as Hs.
    { apply saturate_mono. rewrite !wall_Now. lia. }
    destruct (time.mono (time.Now r1)); destruct (time.mono (time.Now r2));
      exact Hs.
Qed.

(** X7.  A read that failed does not make the cache look fresh: when
    [AppPkgConfig] returns although its read failed (the logger's [Fatalf]
    came back), then, with clocks that never step back, the cache is still
    expired and the next call reads the database again. *)
Theorem failed_read_retried ctx appPkg s e r s' :
  monotoneClock w →
  expired w s →
  ReadAPIConfigs w ctx (storeReads s) = inr e →
  AppPkgConfig w ctx appPkg s = Returns r s' →
  expired w s' ∧
  ∀ ctx' appPkg',
    storeReads (final (AppPkgConfig w ctx' appPkg' s')) = S (storeReads s').
Proof.
  intros [_ Hmono] Hexp Hread Hcall.
  pose proof (AppPkgConfig_final ctx appPkg s) as Hfin.
  rewrite Hcall in Hfin. simpl in Hfin.
  assert (globalConfig s' = globalConfig s ∧ clockReads s' = S (clockReads s))
    as [Hg Hc].
  { destruct Hfin as [(Hlt & _)|[(_ & configs & Hr & _)|(_ & e' & _ & Hg & Hc & _)]].
    - unfold expired in Hexp. lia.
    - rewrite Hread in Hr. discriminate.
    - split; assumption. }
  assert (expired w s') as Hexp'.
  { unfold expired, elapsed in *. rewrite Hg, Hc.
    destruct (Hmono (clockReads s) (S (clockReads s))) as [Hw Hm]; [lia|].
    pose proof (Since_mono _ _ (lastLoadTime (globalConfig s)) Hw Hm). lia. }
  split; [assumption|]. intros ctx' appPkg'.
  destruct (AppPkgConfig_final ctx' appPkg' s')
    as [(Hlt & _)|[(_ & _ & _ & _ & _ & Hr)|(_ & _ & _ & _ & _ & Hr)]];
    [unfold expired in Hexp'; lia|exact Hr|exact Hr].
Qed.

Lemma lastFor_NoDup (configs : list (APIConfig Fields)) i r :
  NoDup (AppPackageName <$> configs) →
  configs !! i = Some r →
  lastFor Fields configs i r.
Proof.
  intros Hnd Hi. split; [assumption|]. intros j r' Hj Hr' Heq.
  assert (i = j) as Hij.
  { eapply NoDup_lookup; [exact Hnd| |].
    - rewrite list_lookup_fmap, Hi. reflexivity.
    - rewrite list_lookup_fmap, Hr'. simpl. rewrite Heq. reflexivity. }
  lia.
Qed.

Lemma build_NoDup_lookup (configs : list (APIConfig Fields)) r :
  NoDup (AppPackageName <$> configs) →
  r ∈ configs →
  build Fields ∅ configs !! AppPackageName r = Some r.
Proof.
  intros Hnd Hin. apply list_elem_of_lookup in Hin as [i Hi].
  apply (build_last Fields ∅ configs i). apply lastFor_NoDup; assumption.
Qed.

Lemma build_NoDup_size (configs : list (APIConfig Fields)) :
  NoDup (AppPackageName <$> configs) →
  size (build Fields ∅ configs) = length configs.
Proof.
  induction configs as [|x configs IH] using rev_ind; intros Hnd.
  - reflexivity.
  - rewrite fmap_app in Hnd. apply NoDup_app in Hnd as (Hnd & Hfresh & _).
    rewrite build_snoc, map_size_insert_None.
    + rewrite IH, length_app by assumption. simpl. lia.
    + rewrite build_absent; [apply lookup_empty|].
      intros r Hin Heq. apply (Hfresh (AppPackageName r)).
      * apply list_elem_of_fmap. exists r. split; [reflexivity|assumption].
      * simpl. rewrite Heq. apply list_elem_of_singleton. reflexivity.
Qed.

(** X8.  When the records of a read have pairwise different package names,
    the reload keeps them all: each is found under its name, and the cache
    has as many entries as the read has records. *)
Theorem distinct_names_all_kept ctx s configs :
  NoDup (AppPackageName <$> configs) →
  expired w s →
  ReadAPIConfigs w ctx (storeReads s) = inl configs →
  let s' := final (loadConfig w ctx s) in
  (∀ r, r ∈ configs →
        cache (globalConfig s') !! AppPackageName r = Some r) ∧
  size (cache (globalConfig s')) = length configs.
Proof.
  intros Hnd Hexp Hread.
  rewrite (loadConfig_reload Fields Ctx w ctx s configs Hexp Hread). simpl.
  split.
  - intros r Hin. apply build_NoDup_lookup; assumption.
  - apply build_NoDup_size. assumption.
Qed.

Lemma build_Permutation (l1 l2 : list (APIConfig Fields)) :
  l1 ≡ₚ l2 →
  NoDup (AppPackageName <$> l1) →
  build Fields ∅ l1 = build Fields ∅ l2.
Proof.
  intros Hperm Hnd1.
  assert (NoDup (AppPackageName <$> l2)) as Hnd2 by (rewrite <- Hperm; exact Hnd1).
  apply map_eq. intros k.
  destruct (build Fields ∅ l1 !! k) as [a|] eqn:E1.
  - destruct (build_from Fields _ _ _ _ E1) as [[<- Hin]|Hempty].
    + symmetry. apply build_NoDup_lookup; [assumption|].
      rewrite <- Hperm. assumption.
    + rewrite lookup_empty in Hempty. discriminate.
  - destruct (build Fields ∅ l2 !! k) as [b|] eqn:E2; [|reflexivity].
    destruct (build_from Fields _ _ _ _ E2) as [[<- Hin]|Hempty].
    + rewrite build_NoDup_lookup in E1; [discriminate|assumption|].
      rewrite Hperm. assumption.
    + rewrite lookup_empty in Hempty. discriminate.
Qed.

(** X9.  The order in which the database returns records with pairwise
    different package names does not matter: two reloads whose reads are
    permutations of each other install the same snapshot. *)
Theorem reload_order_irrelevant ctx1 ctx2 s1 s2 l1 l2 :
  l1 ≡ₚ l2 →
  NoDup (AppPackageName <$> l1) →
  expired w s1 → ReadAPIConfigs w ctx1 (storeReads s1) = inl l1 →
  expired w s2 → ReadAPIConfigs w ctx2 (storeReads s2) = inl l2 →
  cache (globalConfig (final (loadConfig w ctx1 s1))) =
  cache (globalConfig (final (loadConfig w ctx2 s2))).
Proof.
  intros Hperm Hnd Hexp1 Hread1 Hexp2 Hread2.
  rewrite (loadConfig_reload Fields Ctx w ctx1 s1 l1 Hexp1 Hread1).
  rewrite (loadConfig_reload Fields Ctx w ctx2 s2 l2 Hexp2 Hread2).
  simpl. apply build_Permutation; assumption.
Qed.

(** X10.  [newConfig] accepts a period of more than five minutes as it is
    and logs the one [Warn] that carries it; for a period of five minutes
    or less it logs no [Warn]; and in no case does it log more than one
    call, since a value that fails to parse leaves the one minute
    default. *)
Theorem newConfig_warning :
  let rp := refreshPeriod (fst (newConfig w)) in
  (time.Minute * 5 < rp →
   snd (newConfig w) =
   [mkCall Warn [VString "config refresh duration is > 5 minutes: %v";
                 VDuration rp]]) ∧
  (rp <= time.Minute * 5 → callsOf Warn (snd (newConfig w)) = []) ∧
  (length (snd (newConfig w)) ≤ 1)%nat.
Proof.
  assert ((time.Minute * 5 <? defaultRefreshPeriod) = false) as Hdef
    by reflexivity.
  assert (¬ time.Minute * 5 < defaultRefreshPeriod) as Hdef'
    by (vm_compute; discriminate).
  cbv zeta. unfold newConfig.
  destruct (bool_decide _).
  - destruct (ParseDuration w _) as [d|e]; cbn [fst snd refreshPeriod].
    + destruct (Z.ltb_spec (time.Minute * 5) d) as [Hlt|Hge].
      * split; [reflexivity|]. split; [lia|simpl; lia].
      * split; [lia|]. split; [reflexivity|simpl; lia].
    + rewrite Hdef. split; [intros H; destruct (Hdef' H)|].
      split; [reflexivity|simpl; lia].
  - cbn [fst snd refreshPeriod]. rewrite Hdef.
    split; [intros H; destruct (Hdef' H)|]. split; [reflexivity|simpl; lia].
Qed.

End RunProperties.

(** ** The run properties at the concrete worlds *)

Lemma sampleClock_monotone (w : World Z unit) :
  clock w = sampleClock → monotoneClock w.
Proof.
  intros Hc. unfold monotoneClock. rewrite Hc. split.
  - vm_compute. discriminate.
  - intros i j Hij. unfold sampleClock. simpl.
    assert (time.Second = 1000000000) as -> by reflexivity.
    assert (time.unixEpoch = 62135596800000000000) as -> by reflexivity.
    split; lia.
Defined.

Lemma AppPkgConfig_diagnostic_iff_nil_witness :
  AppPkgConfig wOk tt "com.app.b" (init wOk) = Returns (Some recB, None) sLoaded ∧
  callsOf Errorf (logged Z (init wOk) sLoaded) = [].
Proof.
  assert (AppPkgConfig wOk tt "com.app.b" (init wOk)
          = Returns (Some recB, None) sLoaded) as h1
    by (vm_compute; reflexivity).
  split; [exact h1|].
  exact (AppPkgConfig_diagnostic_iff_nil _ _ wOk tt "com.app.b" _ _ _ _ h1).
Defined.

Lemma AppPkgConfig_returns_requested_witness :
  Reachable wOk (init wOk) ∧
  AppPkgConfig wOk tt "com.app.b" (init wOk) = Returns (Some recB, None) sLoaded ∧
  AppPackageName recB = "com.app.b".
Proof.
  assert (Reachable wOk (init wOk)) as h1 by apply reach_init.
  assert (AppPkgConfig wOk tt "com.app.b" (init wOk)
          = Returns (Some recB, None) sLoaded) as h2
    by (vm_compute; reflexivity).
  split; [exact h1|]. split; [exact h2|].
  exact (AppPkgConfig_returns_requested _ _ wOk tt "com.app.b" _ _ _ _ h1 h2).
Defined.

Lemma refreshPeriod_fixed_witness :
  Reachable wOk sLoaded ∧
  refreshPeriod (globalConfig sLoaded) = refreshPeriod (fst (newConfig wOk)).
Proof.
  assert (AppPkgConfig wOk tt "com.app.b" (init wOk)
          = Returns (Some recB, None) sLoaded) as h0
    by (vm_compute; reflexivity).
  assert (Reachable wOk sLoaded) as h1
    by exact (reach_call _ _ wOk tt "com.app.b" _ _ _ (reach_init _ _ wOk) h0).
  split; [exact h1|].
  exact (refreshPeriod_fixed _ _ wOk sLoaded h1).
Defined.

Lemma one_read_per_period_witness :
  expired wOk (init wOk) ∧
  ReadAPIConfigs wOk tt 0 = inl [recA; recB; recA2] ∧
  ∃ s', serve wOk [(tt, "com.app.a"); (tt, "com.app.b"); (tt, "com.app.c")]
              (init wOk)
        = Returns ((λ call : unit * string,
                      (build Z ∅ [recA; recB; recA2] !! snd call, None))
                     <$> [(tt, "com.app.a"); (tt, "com.app.b"); (tt, "com.app.c")])
                  s' ∧
        storeReads s' = 1%nat.
Proof.
  assert (expired wOk (init wOk)) as h1 by (vm_compute; discriminate).
  assert (ReadAPIConfigs wOk tt 0 = inl [recA; recB; recA2]) as h2
    by reflexivity.
  assert (∀ j, (j < length [(tt, "com.app.b"); (tt, "com.app.c")])%nat →
               time.Since (clock wOk (S (S (clockReads (init wOk))) + j))
                          (time.Now (clock wOk (S (clockReads (init wOk)))))
               < refreshPeriod (globalConfig (init wOk))) as h3.
  { intros j Hj. destruct j as [|[|j]];
      [vm_compute; reflexivity|vm_compute; reflexivity|simpl in Hj; lia]. }
  split; [exact h1|]. split; [exact h2|].
  destruct (one_read_per_period _ _ wOk tt "com.app.a"
              [(tt, "com.app.b"); (tt, "com.app.c")] (init wOk) _ h1 h2 h3)
    as (s' & Hrun & Hreads & _).
  exists s'. split; [exact Hrun|exact Hreads].
Defined.

Lemma nonpositive_period_always_reads_witness :
  monotoneClock wZero ∧
  refreshPeriod (fst (newConfig wZero)) <= 0 ∧
  Reachable wZero (init wZero) ∧
  storeReads (final (AppPkgConfig wZero tt "com.app.a" (init wZero))) = 1%nat.
Proof.
  assert (monotoneClock wZero) as h1 by (apply sampleClock_monotone; reflexivity).
  assert (refreshPeriod (fst (newConfig wZero)) <= 0) as h2
    by (vm_compute; discriminate).
  assert (Reachable wZero (init wZero)) as h3 by apply reach_init.
  split; [exact h1|]. split; [exact h2|]. split; [exact h3|].
  exact (proj2 (nonpositive_period_always_reads _ _ wZero tt "com.app.a"
                  (init wZero) h1 h2 h3)).
Defined.

Lemma failed_read_retried_witness :
  monotoneClock wDownQuiet ∧
  expired wDownQuiet (init wDownQuiet) ∧
  ReadAPIConfigs wDownQuiet tt 0 = inr "connection refused" ∧
  ∃ s', AppPkgConfig wDownQuiet tt "com.app.a" (init wDownQuiet)
        = Returns (None, None) s' ∧
        expired wDownQuiet s'.
Proof.
  assert (monotoneClock wDownQuiet) as h1
    by (apply sampleClock_monotone; reflexivity).
  assert (expired wDownQuiet (init wDownQuiet)) as h2
    by (vm_compute; discriminate).
  assert (ReadAPIConfigs wDownQuiet tt 0 = inr "connection refused") as h3
    by reflexivity.
  assert (AppPkgConfig wDownQuiet tt "com.app.a" (init wDownQuiet)
          = Returns (None, None)
              (final (AppPkgConfig wDownQuiet tt "com.app.a" (init wDownQuiet))))
    as h4 by (vm_compute; reflexivity).
  split; [exact h1|]. split; [exact h2|]. split; [exact h3|].
  eexists. split; [exact h4|].
  exact (proj1 (failed_read_retried _ _ wDownQuiet tt "com.app.a" _ _ _ _
                  h1 h2 h3 h4)).
Defined.

Lemma sample_names_distinct : NoDup (AppPackageName <$> [recA; recB]).
Proof.
  simpl. apply NoDup_cons. split.
  - intros Hin. apply list_elem_of_singleton in Hin. discriminate Hin.
  - apply NoDup_singleton.
Defined.

Lemma distinct_names_all_kept_witness :
  NoDup (AppPackageName <$> [recA; recB]) ∧
  expired wOrders (init wOrders) ∧
  ReadAPIConfigs wOrders tt 0 = inl [recA; recB] ∧
  size (cache (globalConfig (final (loadConfig wOrders tt (init wOrders))))) = 2%nat.
Proof.
  assert (expired wOrders (init wOrders)) as h2 by (vm_compute; discriminate).
  assert (ReadAPIConfigs wOrders tt 0 = inl [recA; recB]) as h3 by reflexivity.
  split; [exact sample_names_distinct|]. split; [exact h2|]. split; [exact h3|].
  exact (proj2 (distinct_names_all_kept _ _ wOrders tt (init wOrders) _
                  sample_names_distinct h2 h3)).
Defined.

Lemma reload_order_irrelevant_witness :
  [recA; recB] ≡ₚ [recB; recA] ∧
  expired wOrders (init wOrders) ∧
  expired wOrders sSecond ∧
  ReadAPIConfigs wOrders tt 0 = inl [recA; recB] ∧
  ReadAPIConfigs wOrders tt 1 = inl [recB; recA] ∧
  cache (globalConfig (final (loadConfig wOrders tt (init wOrders)))) =
  cache (globalConfig (final (loadConfig wOrders tt sSecond))).
Proof.
  assert ([recA; recB] ≡ₚ [recB; recA]) as h1 by apply perm_swap.
  assert (expired wOrders (init wOrders)) as h2 by (vm_compute; discriminate).
  assert (expired wOrders sSecond) as h3 by (vm_compute; discriminate).
  assert (ReadAPIConfigs wOrders tt 0 = inl [recA; recB]) as h4 by reflexivity.
  assert (ReadAPIConfigs wOrders tt 1 = inl [recB; recA]) as h5 by reflexivity.
  split; [exact h1|]. split; [exact h2|]. split; [exact h3|].
  split; [exact h4|]. split; [exact h5|].
  exact (reload_order_irrelevant _ _ wOrders tt tt (init wOrders) sSecond _ _
           h1 sample_names_distinct h2 h4 h3 h5).
Defined.

Lemma newConfig_warning_witness :
  time.Minute * 5 < refreshPeriod (fst (newConfig w10m)) ∧
  snd (newConfig w10m) =
  [mkCall Warn [VString "config refresh duration is > 5 minutes: %v";
                VDuration (refreshPeriod (fst (newConfig w10m)))]].
Proof.
  assert (time.Minute * 5 < refreshPeriod (fst (newConfig w10m))) as h1
    by (vm_compute; reflexivity).
  split; [exact h1|].
  exact (proj1 (newConfig_warning _ _ w10m) h1).
Defined.
